(** * The [useProducts] hook: catalog reconciliation

    A shallow embedding of [src/hooks/useProducts.ts].  The hook keeps four
    state cells (catalog, featured ids, loading, error), issues one
    cancellable [fetch] when it mounts and, when the promise chain settles,
    runs the handlers below.  Each handler is a function on the hook state;
    the sets of the source ([new Set(...)], [.has]) are [gset string]. *)

From stdpp Require Import base decidable option list gmap sets strings pretty.
From Stdlib Require Import ZArith.

Open Scope string_scope.
Open Scope list_scope.

(** ** Data model *)

(** [images: { natural: string; uv?: string }] *)
Record Images := mkImages {
  natural : string;
  uv : option string;
}.

(** The [Product] interface of [src/data/products.ts]: the fields the
    project documents as required.  Only [id] and [name] are read by the
    hook; the rest travels through it untouched. *)
Record Product := mkProduct {
  id : string;
  name : string;
  price : Z;
  description : string;
  dimensions : string;
  weight : string;
  images : Images;
  category : string;
}.

(** An element of the remote array, [Product & { featured?: boolean }]. *)
Record RemoteProduct := mkRemote {
  product : Product;
  featured : option bool;
}.

(** Truthiness of [p.featured] for an optional boolean. *)
Definition truthy (f : option bool) : bool :=
  match f with
  | Some true => true
  | _ => false
  end.

(** ** Promises, responses and bodies *)

Record JsError := mkError {
  err_name : string;
  err_message : string;
}.

Inductive Settled (A : Type) : Type :=
  | Fulfilled (a : A)
  | Rejected (e : JsError).
Arguments Fulfilled {A} a.
Arguments Rejected {A} e.

(** [p.then(f)] for a handler that may throw or return another promise. *)
Definition then_ {A B : Type} (p : Settled A) (f : A → Settled B) : Settled B :=
  match p with
  | Fulfilled a => f a
  | Rejected e => Rejected e
  end.

(** What [res.json()] can resolve to.  The hook only asks whether the value
    is an array; an array is read at the element type the source ascribes
    to it.  An array holding anything but records (a [null] element makes
    the second handler throw into [.catch]) is not a value of this type,
    and nothing below speaks about such a body. *)
Inductive JsonBody : Type :=
  | JNull
  | JBool (b : bool)
  | JNumber (n : Z)
  | JString (s : string)
  | JObject (fields : list (string * string))
  | JArray (data : list RemoteProduct).

Definition isArray (v : JsonBody) : bool :=
  match v with
  | JArray _ => true
  | _ => false
  end.

Record Response := mkResponse {
  status : Z;
  json : Settled JsonBody;
}.

(** [res.ok]: the status is in the range 200-299. *)
Definition ok (res : Response) : bool :=
  bool_decide (200 ≤ status res)%Z && bool_decide (status res ≤ 299)%Z.

(** The rejection of an aborted [fetch]. *)
Definition AbortError : JsError :=
  mkError "AbortError" "The user aborted a request.".

(** ** Hook state *)

Record HookState := mkState {
  products : list Product;
  featuredIds : gset string;
  loading : bool;
  error : option string;
}.

Definition setProducts (v : list Product) (s : HookState) : HookState :=
  mkState v (featuredIds s) (loading s) (error s).
Definition setFeaturedIds (v : gset string) (s : HookState) : HookState :=
  mkState (products s) v (loading s) (error s).
Definition setLoading (v : bool) (s : HookState) : HookState :=
  mkState (products s) (featuredIds s) v (error s).
Definition setError (v : option string) (s : HookState) : HookState :=
  mkState (products s) (featuredIds s) (loading s) v.

Record UseProductsResult := mkResult {
  res_products : list Product;
  res_featuredProducts : list Product;
  res_loading : bool;
  res_error : option string;
  res_getProductById : string → option Product;
}.

(** [DEFAULT_FEATURED_IDS] *)
Definition DEFAULT_FEATURED_IDS : gset string :=
  list_to_set ["u8"; "l5"; "d13"; "d10"; "d6"; "d12"].

(** [products.find((p) => p.id === id)]: the first match, or [undefined]. *)
Definition getProductById (catalog : list Product) (i : string) : option Product :=
  find (λ p, bool_decide (id p = i)) catalog.

(** [products.filter((p) => featuredIds.has(p.id))] *)
Definition featuredProducts (catalog : list Product) (ids : gset string) : list Product :=
  filter (λ p, id p ∈ ids) catalog.

(** ** Sample records *)

Module Samples.

Definition img (file : string) : Images := mkImages file None.

Definition item (i n : string) (cost : Z) : Product :=
  mkProduct i n cost "Handmade" "12 x 6 x 6" "3.2 lbs" (img (n +:+ ".jpg")) "Lamps".

Definition A : Product := item "a" "A" 85.
Definition B : Product := item "b" "B" 40.
Definition C : Product := item "c" "C" 60.
Definition staticABC : list Product := [A; B; C].

(** Remote records: [B] with another id and price, and a new product [D]. *)
Definition remoteB : RemoteProduct := mkRemote (item "rec1" "B" 99) None.
Definition remoteD : RemoteProduct := mkRemote (item "rec2" "D" 120) (Some true).
Definition remoteD' : RemoteProduct := mkRemote (item "rec9" "D" 150) (Some true).
Definition remoteBD : list RemoteProduct := [remoteB; remoteD].
Definition remoteBD' : list RemoteProduct := [remoteB; remoteD'].

Definition respond (data : list RemoteProduct) : Response :=
  mkResponse 200 (Fulfilled (JArray data)).

(** A catalog holding two of the default featured ids. *)
Definition Lamp : Product := item "u8" "Lamp" 85.
Definition Bowl : Product := item "l5" "Bowl" 30.
Definition staticDefaults : list Product := [Lamp; Bowl].
Definition remoteBowl : RemoteProduct := mkRemote (item "rec3" "Bowl" 30) None.
Definition remoteLamp : RemoteProduct := mkRemote (item "rec4" "Lamp" 90) None.

(** Rejections other than an abort. *)
Definition failedToFetch : JsError := mkError "TypeError" "Failed to fetch".
Definition badJson : JsError := mkError "SyntaxError" "Unexpected end of JSON input".

End Samples.

Module Reconciler.
Section WithStaticCatalog.

(** The static catalog exported by [src/data/products.ts]. *)
Variable fallbackProducts : list Product.

(** *** The merge of the second [.then] handler *)

Definition nonSoldNames (data : list RemoteProduct) : gset string :=
  list_to_set ((λ p, name (product p)) <$> data).

Definition staticNames : gset string :=
  list_to_set (name <$> fallbackProducts).

Definition filteredStatic (data : list RemoteProduct) : list Product :=
  filter (λ p, name p ∈ nonSoldNames data) fallbackProducts.

(** The kept remote records, seen at type [Product]. *)
Definition newProducts (data : list RemoteProduct) : list Product :=
  product <$> filter (λ p, name (product p) ∉ staticNames) data.

Definition merged (data : list RemoteProduct) : list Product :=
  filteredStatic data ++ newProducts data.

Definition featuredNames (data : list RemoteProduct) : gset string :=
  list_to_set ((λ p, name (product p)) <$> filter (λ p, truthy (featured p) = true) data).

Definition featuredFromAirtable (data : list RemoteProduct) : gset string :=
  list_to_set (id <$> filter (λ p, name p ∈ featuredNames data) (merged data)).

(** *** The handlers of the promise chain *)

(** First [.then]: throw on a non-2xx status, else hand over [res.json()]. *)
Definition onResponse (res : Response) : Settled JsonBody :=
  if negb (ok res)
  then Rejected (mkError "Error" ("Products fetch failed: " +:+ pretty (status res)))
  else json res.

(** Second [.then]. *)
Definition onData (body : JsonBody) (s : HookState) : HookState :=
  match body with
  | JArray data =>
      if bool_decide (length data = 0) then s
      else
        let s1 := setProducts (merged data) s in
        if bool_decide (0 < size (featuredFromAirtable data))
        then setFeaturedIds (featuredFromAirtable data) s1
        else s1
  | _ => s
  end.

(** [.catch]; the [console.warn] leaves the hook state alone and is not
    recorded. *)
Definition onError (err : JsError) (s : HookState) : HookState :=
  if bool_decide (err_name err ≠ "AbortError")
  then setError (Some "offline") s
  else s.

(** [.finally] *)
Definition onFinally (s : HookState) : HookState := setLoading false s.

(** The whole chain, run on the way the [fetch] promise settled.  A
    rejection of [fetch], a throw of the first handler and a rejection of
    [res.json()] all reach [.catch]; on records of the ascribed type the
    second handler does not throw.  [.finally] runs last in every case. *)
Definition settle (fetched : Settled Response) (s : HookState) : HookState :=
  let s' :=
    match then_ fetched onResponse with
    | Fulfilled body => onData body s
    | Rejected err => onError err s
    end in
  onFinally s'.

(** The [useState] initial values. *)
Definition initial : HookState :=
  mkState fallbackProducts DEFAULT_FEATURED_IDS true None.

(** What the hook returns on a render with state [s]. *)
Definition useProducts (s : HookState) : UseProductsResult :=
  mkResult (products s)
           (featuredProducts (products s) (featuredIds s))
           (loading s)
           (error s)
           (getProductById (products s)).

(** The state after the chains of successive activations have settled,
    oldest first. *)
Definition lifecycle (events : list (Settled Response)) : HookState :=
  foldl (λ s fetched, settle fetched s) initial events.

(** *** Kinds of remote outcome named by the specification *)

(** A response from which the merge has nothing to read: the request
    failed or was aborted, the status is not 2xx, the body could not be
    read, or the body is an empty array or not an array. *)
Inductive unusable : Settled Response → Prop :=
  | unusable_rejected e : unusable (Rejected e)
  | unusable_status res : ok res = false → unusable (Fulfilled res)
  | unusable_body res e : json res = Rejected e → unusable (Fulfilled res)
  | unusable_empty res : json res = Fulfilled (JArray []) → unusable (Fulfilled res)
  | unusable_non_array res v :
      json res = Fulfilled v → isArray v = false → unusable (Fulfilled res).

(** The remote call rejects with an error other than an abort: the
    network failed, or the status was not 2xx. *)
Inductive transport_failure : Settled Response → Prop :=
  | failure_network e :
      err_name e ≠ "AbortError" → transport_failure (Rejected e)
  | failure_status res :
      ok res = false → transport_failure (Fulfilled res).

(** The request was torn down: [fetch] itself rejects with the abort
    error, or the body read of a 2xx response does. *)
Inductive aborted : Settled Response → Prop :=
  | aborted_fetch e :
      err_name e = "AbortError" → aborted (Rejected e)
  | aborted_body res e :
      ok res = true → json res = Rejected e →
      err_name e = "AbortError" → aborted (Fulfilled res).

(** A 2xx response whose body is the non-empty array [data]. *)
Definition delivers (res : Response) (data : list RemoteProduct) : Prop :=
  ok res = true ∧ json res = Fulfilled (JArray data) ∧ data ≠ [].

(** *** The merge in the words of the specification *)

(** Static records whose name occurs among the remote names. *)
Definition spec_retainedStatic (data : list RemoteProduct) : list Product :=
  filter (λ p, name p ∈ ((λ r, name (product r)) <$> data)) fallbackProducts.

(** Remote records whose name occurs among no static name. *)
Definition spec_newFromRemote (data : list RemoteProduct) : list Product :=
  filter (λ p, name p ∉ (name <$> fallbackProducts)) (product <$> data).

(** Two payloads identical in names and featured flags, record by record. *)
Definition names_and_flags (data : list RemoteProduct) : list (string * bool) :=
  (λ r, (name (product r), truthy (featured r))) <$> data.

Definition same_names_and_flags (d1 d2 : list RemoteProduct) : Prop :=
  names_and_flags d1 = names_and_flags d2.

(** *** Facts about lists and about the name sets *)

(** [filter P l] is the largest sublist of [l] whose elements satisfy [P]. *)
Lemma filter_largest_sublist {T : Type} (P : T → Prop)
    `{!∀ x, Decision (P x)} (l k : list T) :
  k `sublist_of` l → Forall P k → k `sublist_of` filter P l.
Proof.
  induction 1 as [|x k l Hkl IH|x k l Hkl IH]; intros HP.
  - apply sublist_nil_l.
  - apply Forall_cons in HP as [Hx Hk].
    rewrite filter_cons_True by done. apply sublist_skip; auto.
  - rewrite filter_cons. destruct (decide (P x)); [apply sublist_cons|]; auto.
Qed.

Lemma filter_none {T : Type} (P : T → Prop) `{!∀ x, Decision (P x)} (l : list T) :
  (∀ x, x ∈ l → ¬ P x) → filter P l = [].
Proof.
  induction l as [|x l IH]; intros Hno; [done|].
  rewrite filter_cons_False by (apply Hno; left).
  apply IH. intros y Hy. apply Hno. by right.
Qed.

Lemma truthy_true (f : option bool) : truthy f = true ↔ f = Some true.
Proof. destruct f as [[]|]; simpl; split; congruence. Qed.

Lemma elem_of_nonSoldNames data n :
  n ∈ nonSoldNames data ↔ ∃ r, r ∈ data ∧ name (product r) = n.
Proof.
  unfold nonSoldNames. rewrite elem_of_list_to_set, list_elem_of_fmap.
  split; [intros (r & -> & Hr) | intros (r & Hr & <-)]; eauto.
Qed.

Lemma elem_of_staticNames n :
  n ∈ staticNames ↔ ∃ q, q ∈ fallbackProducts ∧ name q = n.
Proof.
  unfold staticNames. rewrite elem_of_list_to_set, list_elem_of_fmap.
  split; [intros (q & -> & Hq) | intros (q & Hq & <-)]; eauto.
Qed.

Lemma elem_of_featuredNames data n :
  n ∈ featuredNames data ↔
  ∃ r, r ∈ data ∧ featured r = Some true ∧ name (product r) = n.
Proof.
  unfold featuredNames. rewrite elem_of_list_to_set, list_elem_of_fmap.
  split.
  - intros (r & -> & Hr). apply list_elem_of_filter in Hr as [Hf Hr].
    apply truthy_true in Hf. eauto.
  - intros (r & Hr & Hf & <-). exists r. split; [done|].
    apply list_elem_of_filter. split; [by apply truthy_true|done].
Qed.

(** *** What the chain does, outcome by outcome *)

Lemma settle_delivers res data s :
  delivers res data →
  settle (Fulfilled res) s =
    setLoading false
      (if bool_decide (0 < size (featuredFromAirtable data))
       then setFeaturedIds (featuredFromAirtable data) (setProducts (merged data) s)
       else setProducts (merged data) s).
Proof.
  intros (Hok & Hjson & Hne). unfold settle, onFinally. simpl.
  unfold onResponse. rewrite Hok, Hjson. simpl.
  rewrite bool_decide_eq_false_2; [done|].
  destruct data; [done|]. simpl. lia.
Qed.

Lemma products_settle_delivers res data s :
  delivers res data → products (settle (Fulfilled res) s) = merged data.
Proof.
  intros H. rewrite (settle_delivers _ _ _ H). by case_bool_decide.
Qed.

Lemma settle_rejected e s :
  settle (Rejected e) s = setLoading false (onError e s).
Proof. reflexivity. Qed.

Lemma settle_status res s :
  ok res = false →
  settle (Fulfilled res) s = setLoading false (setError (Some "offline") s).
Proof.
  intros Hok. unfold settle, onFinally. simpl. unfold onResponse.
  rewrite Hok. reflexivity.
Qed.

Lemma settle_body_rejected res e s :
  ok res = true → json res = Rejected e →
  settle (Fulfilled res) s = setLoading false (onError e s).
Proof.
  intros Hok Hjson. unfold settle, onFinally. simpl. unfold onResponse.
  rewrite Hok, Hjson. reflexivity.
Qed.

Lemma onError_keeps e s :
  products (onError e s) = products s ∧
  featuredIds (onError e s) = featuredIds s ∧
  loading (onError e s) = loading s.
Proof. unfold onError. by case_bool_decide. Qed.

(** An unusable outcome leaves catalog and featured ids as they were. *)
Lemma settle_unusable_keeps fetched s :
  unusable fetched →
  products (settle fetched s) = products s ∧
  featuredIds (settle fetched s) = featuredIds s.
Proof.
  intros [e|res Hok|res e Hjson|res Hjson|res v Hjson Hv].
  - rewrite settle_rejected. simpl. split; apply onError_keeps.
  - by rewrite settle_status.
  - destruct (ok res) eqn:Hok.
    + rewrite (settle_body_rejected _ _ _ Hok Hjson). simpl.
      split; apply onError_keeps.
    + by rewrite settle_status.
  - destruct (ok res) eqn:Hok; [|by rewrite settle_status].
    unfold settle, onFinally. simpl. unfold onResponse.
    by rewrite Hok, Hjson.
  - destruct (ok res) eqn:Hok; [|by rewrite settle_status].
    unfold settle, onFinally. simpl. unfold onResponse.
    rewrite Hok, Hjson. by destruct v.
Qed.

(** C1. Fallback invariant: when the remote response is a failure, an
    abort, an empty array or a non-array value, the chain started from
    the initial state leaves the catalog equal to the static catalog
    (same records, same order) and the featured ids equal to the default
    set. *)
Theorem fallback_invariant fetched :
  unusable fetched →
  products (settle fetched initial) = fallbackProducts ∧
  featuredIds (settle fetched initial) = DEFAULT_FEATURED_IDS.
Proof. intros H. exact (settle_unusable_keeps fetched initial H). Qed.

(** *** The merged catalog *)

Lemma filter_fmap {T U : Type} (f : T → U) (P : U → Prop)
    `{!∀ y, Decision (P y)} (l : list T) :
  filter P (f <$> l) = f <$> filter (λ x, P (f x)) l.
Proof.
  induction l as [|x l IH]; [done|].
  rewrite fmap_cons, !filter_cons, IH. by destruct (decide (P (f x))).
Qed.

Lemma filteredStatic_spec data : filteredStatic data = spec_retainedStatic data.
Proof.
  apply list_filter_iff. intros p. unfold nonSoldNames.
  by rewrite elem_of_list_to_set.
Qed.

Lemma newProducts_spec data : newProducts data = spec_newFromRemote data.
Proof.
  unfold newProducts, spec_newFromRemote.
  rewrite (filter_fmap product (λ p, name p ∉ name <$> fallbackProducts)).
  f_equal. apply list_filter_iff. intros r. unfold staticNames.
  by rewrite elem_of_list_to_set.
Qed.

Lemma elem_of_filteredStatic data p :
  p ∈ filteredStatic data ↔
  p ∈ fallbackProducts ∧ ∃ r, r ∈ data ∧ name (product r) = name p.
Proof.
  unfold filteredStatic. rewrite list_elem_of_filter, elem_of_nonSoldNames.
  tauto.
Qed.

Lemma elem_of_newProducts data p :
  p ∈ newProducts data ↔
  (∃ r, r ∈ data ∧ product r = p) ∧
  ∀ q, q ∈ fallbackProducts → name q ≠ name p.
Proof.
  unfold newProducts. rewrite list_elem_of_fmap. split.
  - intros (r & -> & Hr). apply list_elem_of_filter in Hr as [Hno Hr].
    split; [by exists r|]. intros q Hq Heq. apply Hno.
    apply elem_of_staticNames. eauto.
  - intros ((r & Hr & <-) & Hno). exists r. split; [done|].
    apply list_elem_of_filter. split; [|done].
    intros (q & Hq & Heq)%elem_of_staticNames. by apply (Hno q).
Qed.

(** C2. Retention rule: after a non-empty payload the catalog splits
    into a static-derived segment followed by records that share no name
    with the static catalog; the segment is a sublist of the static
    catalog (original order), holds exactly the static records whose
    name is a remote name, and is the largest such sublist. *)
Theorem retention_rule res data s :
  delivers res data →
  ∃ kept added : list Product,
    products (settle (Fulfilled res) s) = kept ++ added ∧
    (∀ p, p ∈ added → ∀ q, q ∈ fallbackProducts → name q ≠ name p) ∧
    kept `sublist_of` fallbackProducts ∧
    (∀ p, p ∈ kept ↔
          p ∈ fallbackProducts ∧ ∃ r, r ∈ data ∧ name (product r) = name p) ∧
    (∀ k, k `sublist_of` fallbackProducts →
          Forall (λ p, ∃ r, r ∈ data ∧ name (product r) = name p) k →
          k `sublist_of` kept).
Proof.
  intros Hd. exists (filteredStatic data), (newProducts data).
  split; [by apply products_settle_delivers|].
  split; [intros p Hp; by apply elem_of_newProducts in Hp as [_ Hp]|].
  split; [apply sublist_filter|].
  split; [apply elem_of_filteredStatic|].
  intros k Hk HP. apply filter_largest_sublist; [done|].
  eapply Forall_impl; [exact HP|]. intros p Hp. by apply elem_of_nonSoldNames.
Qed.

(** C3. New-product inclusion and catalog order: after a non-empty
    payload every remote record whose name no static record bears is in
    the catalog with its own fields, and the catalog is the retained
    static records followed by the remote-only records, each part in the
    order of its source. *)
Theorem new_products_and_order res data s :
  delivers res data →
  (∀ r, r ∈ data →
        (∀ q, q ∈ fallbackProducts → name q ≠ name (product r)) →
        product r ∈ products (settle (Fulfilled res) s)) ∧
  products (settle (Fulfilled res) s) =
    spec_retainedStatic data ++ spec_newFromRemote data ∧
  spec_retainedStatic data `sublist_of` fallbackProducts ∧
  spec_newFromRemote data `sublist_of` product <$> data.
Proof.
  intros Hd. rewrite (products_settle_delivers _ _ _ Hd).
  split; [|split; [|split]].
  - intros r Hr Hno. unfold merged. apply elem_of_app. right.
    apply elem_of_newProducts. split; [by exists r|done].
  - unfold merged. by rewrite filteredStatic_spec, newProducts_spec.
  - apply sublist_filter.
  - apply sublist_filter.
Qed.

(** C4. Static wins on conflict: for a name borne by a static record and
    by a remote record, the catalog's records of that name are the static
    records of that name, whatever fields the remote record carries. *)
Theorem static_wins_on_conflict res data s n :
  delivers res data →
  (∃ q, q ∈ fallbackProducts ∧ name q = n) →
  (∃ r, r ∈ data ∧ name (product r) = n) →
  filter (λ p, name p = n) (products (settle (Fulfilled res) s)) =
    filter (λ p, name p = n) fallbackProducts ∧
  (∀ p, p ∈ products (settle (Fulfilled res) s) → name p = n →
        p ∈ fallbackProducts).
Proof.
  intros Hd Hstatic Hremote. rewrite (products_settle_delivers _ _ _ Hd).
  assert (Hnew : filter (λ p, name p = n) (newProducts data) = []).
  { apply filter_none. intros p Hp Hn.
    apply elem_of_newProducts in Hp as [_ Hno].
    destruct Hstatic as (q & Hq & Hqn). apply (Hno q Hq). congruence. }
  split.
  - unfold merged. rewrite filter_app, Hnew, app_nil_r.
    unfold filteredStatic. rewrite list_filter_filter.
    apply list_filter_iff. intros p. split; [tauto|].
    intros Hn. split; [done|]. apply elem_of_nonSoldNames.
    destruct Hremote as (r & Hr & Hrn). exists r. split; congruence.
  - intros p Hp Hn. unfold merged in Hp. apply elem_of_app in Hp as [Hp|Hp].
    + by apply elem_of_filteredStatic in Hp as [Hp _].
    + exfalso. eapply (filter_nil_not_elem_of _ _ p Hnew); done.
Qed.

(** *** The featured ids *)

Lemma elem_of_featuredFromAirtable data i :
  i ∈ featuredFromAirtable data ↔
  ∃ p, p ∈ merged data ∧ id p = i ∧
       ∃ r, r ∈ data ∧ featured r = Some true ∧ name (product r) = name p.
Proof.
  unfold featuredFromAirtable.
  rewrite elem_of_list_to_set, list_elem_of_fmap. split.
  - intros (p & -> & Hp). apply list_elem_of_filter in Hp as [Hn Hp].
    apply elem_of_featuredNames in Hn. eauto.
  - intros (p & Hp & <- & Hr). exists p. split; [done|].
    apply list_elem_of_filter. split; [|done].
    by apply elem_of_featuredNames.
Qed.

(** A record bearing any remote name is in the merged catalog: the
    static one when the name is static, the remote one otherwise. *)
Lemma merged_covers_remote data r :
  r ∈ data → ∃ p, p ∈ merged data ∧ name p = name (product r).
Proof.
  intros Hr. unfold merged.
  destruct (decide (name (product r) ∈ staticNames)) as [Hin|Hout].
  - apply elem_of_staticNames in Hin as (q & Hq & Hqn).
    exists q. split; [|done]. apply elem_of_app. left.
    apply elem_of_filteredStatic. split; [done|]. by exists r.
  - exists (product r). split; [|done]. apply elem_of_app. right.
    apply list_elem_of_fmap. exists r. split; [done|].
    by apply list_elem_of_filter.
Qed.

Lemma featuredFromAirtable_pos data :
  (∃ r, r ∈ data ∧ featured r = Some true) →
  0 < size (featuredFromAirtable data).
Proof.
  intros (r & Hr & Hf).
  destruct (merged_covers_remote data r Hr) as (p & Hp & Hn).
  assert (Hin : id p ∈ featuredFromAirtable data).
  { apply elem_of_featuredFromAirtable. exists p. eauto 6. }
  destruct (decide (size (featuredFromAirtable data) = 0)) as [Hz|Hnz]; [|lia].
  apply size_empty_iff in Hz. exfalso. by apply (Hz (id p)) in Hin.
Qed.

Lemma featuredFromAirtable_none data :
  (∀ r, r ∈ data → featured r ≠ Some true) →
  size (featuredFromAirtable data) = 0.
Proof.
  intros Hno. apply size_empty_iff. intros i. split; [|by intros []%not_elem_of_empty].
  intros (p & _ & _ & r & Hr & Hf & _)%elem_of_featuredFromAirtable.
  by destruct (Hno r Hr).
Qed.

(** C5. Featured precedence: after a non-empty payload, if some remote
    record is flagged the featured ids are exactly the ids of the catalog
    records whose name is a flagged remote name, whatever the set was
    before; if no remote record is flagged the set is kept, so from the
    initial state it is the default set. *)
Theorem featured_precedence res data s :
  delivers res data →
  ((∃ r, r ∈ data ∧ featured r = Some true) →
   ∀ i, i ∈ featuredIds (settle (Fulfilled res) s) ↔
        ∃ p, p ∈ products (settle (Fulfilled res) s) ∧ id p = i ∧
             ∃ r, r ∈ data ∧ featured r = Some true ∧
                  name (product r) = name p) ∧
  ((∀ r, r ∈ data → featured r ≠ Some true) →
   featuredIds (settle (Fulfilled res) s) = featuredIds s ∧
   featuredIds (settle (Fulfilled res) initial) = DEFAULT_FEATURED_IDS).
Proof.
  intros Hd. split.
  - intros Hsome i. rewrite (products_settle_delivers _ _ _ Hd).
    rewrite (settle_delivers _ _ _ Hd).
    rewrite bool_decide_eq_true_2 by by apply featuredFromAirtable_pos.
    simpl. apply elem_of_featuredFromAirtable.
  - intros Hnone. rewrite !(settle_delivers _ _ _ Hd).
    rewrite bool_decide_eq_false_2; [done|].
    rewrite featuredFromAirtable_none by done. lia.
Qed.

(** *** Repeated merges *)

Lemma nonSoldNames_flags data :
  nonSoldNames data = list_to_set (fst <$> names_and_flags data).
Proof.
  unfold nonSoldNames, names_and_flags. f_equal.
  by rewrite <- list_fmap_compose.
Qed.

Lemma featuredNames_flags data :
  featuredNames data =
  list_to_set (fst <$> filter (λ x, snd x = true) (names_and_flags data)).
Proof.
  unfold featuredNames, names_and_flags. f_equal.
  rewrite (filter_fmap _ (λ x : string * bool, snd x = true)).
  by rewrite <- list_fmap_compose.
Qed.

Lemma merged_same_flags d1 d2 :
  same_names_and_flags d1 d2 → newProducts d1 = newProducts d2 →
  merged d1 = merged d2 ∧ featuredFromAirtable d1 = featuredFromAirtable d2.
Proof.
  unfold same_names_and_flags. intros Hsame Hnew.
  assert (Hm : merged d1 = merged d2).
  { unfold merged, filteredStatic.
    by rewrite Hnew, !nonSoldNames_flags, Hsame. }
  split; [done|]. unfold featuredFromAirtable.
  by rewrite Hm, !featuredNames_flags, Hsame.
Qed.

(** C6 (amended). No drift: a payload identical to an earlier one in
    names and featured flags, and in the records whose name no static
    record bears, yields the same state as the earlier one did, and
    merging it after the earlier one changes nothing. *)
Theorem repeated_merge_no_drift res1 res2 d1 d2 s :
  delivers res1 d1 → delivers res2 d2 →
  same_names_and_flags d1 d2 →
  newProducts d1 = newProducts d2 →
  settle (Fulfilled res2) s = settle (Fulfilled res1) s ∧
  settle (Fulfilled res2) (settle (Fulfilled res1) s) = settle (Fulfilled res1) s.
Proof.
  intros H1 H2 Hsame Hnew.
  destruct (merged_same_flags d1 d2 Hsame Hnew) as [Hm Hf].
  rewrite (settle_delivers _ _ (settle _ s) H2).
  rewrite (settle_delivers _ _ s H2), !(settle_delivers _ _ s H1).
  rewrite <- Hm, <- Hf. split; [done|].
  by case_bool_decide.
Qed.

(** *** Lookup and the featured list *)

Lemma getProductById_Some catalog i p :
  getProductById catalog i = Some p → p ∈ catalog ∧ id p = i.
Proof.
  unfold getProductById. intros H. apply find_some in H as [Hin Hid].
  split; [by apply list_elem_of_In|]. by apply bool_decide_eq_true in Hid.
Qed.

Lemma getProductById_None catalog i :
  getProductById catalog i = None ↔ ∀ p, p ∈ catalog → id p ≠ i.
Proof.
  unfold getProductById. split.
  - intros H p Hp. apply list_elem_of_In in Hp.
    pose proof (find_none _ _ H p Hp) as Hf. simpl in Hf.
    by apply bool_decide_eq_false in Hf.
  - intros Hno. induction catalog as [|q l IH]; [done|]. simpl.
    rewrite bool_decide_eq_false_2 by (apply Hno; left).
    apply IH. intros p Hp. apply Hno. by right.
Qed.

(** C7. Lookup accessor totality: for every catalog and id,
    [getProductById] returns a record exactly when some record of the
    catalog has that id, the record returned is one of the catalog with
    that id, and the result is the explicit absent value exactly when no
    record has the id. *)
Theorem getProductById_total (catalog : list Product) (i : string) :
  (is_Some (getProductById catalog i) ↔ ∃ p, p ∈ catalog ∧ id p = i) ∧
  (getProductById catalog i = None ↔ ∀ p, p ∈ catalog → id p ≠ i) ∧
  (∀ p, getProductById catalog i = Some p → p ∈ catalog ∧ id p = i).
Proof.
  split; [|split].
  - split.
    + intros [p Hp]. exists p. by apply getProductById_Some.
    + intros (p & Hp & Hid).
      destruct (getProductById catalog i) as [q|] eqn:Hget; [by exists q|].
      exfalso. rewrite getProductById_None in Hget. by apply (Hget p).
  - apply getProductById_None.
  - apply getProductById_Some.
Qed.

Lemma featuredProducts_sublist catalog ids :
  featuredProducts catalog ids `sublist_of` catalog.
Proof. apply sublist_filter. Qed.

Lemma elem_of_featuredProducts catalog ids p :
  p ∈ featuredProducts catalog ids ↔ p ∈ catalog ∧ id p ∈ ids.
Proof. unfold featuredProducts. rewrite list_elem_of_filter. tauto. Qed.

(** C10. Featured-subset invariant: in every state of the lifecycle the
    featured list handed out by the hook is a sublist of the catalog
    handed out, holds exactly the catalog records whose id is in the
    featured-id set, and is the largest such sublist; so an id of the set
    that no catalog record carries has no record in the featured list. *)
Theorem featured_subset_invariant (events : list (Settled Response)) :
  res_featuredProducts (useProducts (lifecycle events))
    `sublist_of` res_products (useProducts (lifecycle events)) ∧
  (∀ p, p ∈ res_featuredProducts (useProducts (lifecycle events)) ↔
        p ∈ res_products (useProducts (lifecycle events)) ∧
        id p ∈ featuredIds (lifecycle events)) ∧
  (∀ k, k `sublist_of` res_products (useProducts (lifecycle events)) →
        Forall (λ p, id p ∈ featuredIds (lifecycle events)) k →
        k `sublist_of` res_featuredProducts (useProducts (lifecycle events))) ∧
  (∀ i, (∀ p, p ∈ res_products (useProducts (lifecycle events)) → id p ≠ i) →
        ∀ p, p ∈ res_featuredProducts (useProducts (lifecycle events)) → id p ≠ i).
Proof.
  generalize (lifecycle events). intros s. simpl.
  split; [|split; [|split]].
  - apply featuredProducts_sublist.
  - intros p. apply elem_of_featuredProducts.
  - intros k Hk HP. by apply filter_largest_sublist.
  - intros i Hno p Hp. apply elem_of_featuredProducts in Hp as [Hp _]. auto.
Qed.

(** *** Failure and abort *)

(** C9. Transport-failure signalling: when the remote call rejects with
    a non-abort error or answers with a non-2xx status, the catalog stays
    the static catalog, the featured ids stay the default ones, [error]
    becomes the non-null token ["offline"], and [loading] goes from true
    to false. *)
Theorem transport_failure_signalling fetched :
  transport_failure fetched →
  products (settle fetched initial) = fallbackProducts ∧
  featuredIds (settle fetched initial) = DEFAULT_FEATURED_IDS ∧
  error (settle fetched initial) = Some "offline" ∧
  error (settle fetched initial) ≠ None ∧
  loading initial = true ∧
  loading (settle fetched initial) = false.
Proof.
  intros [e Hname|res Hok].
  - rewrite settle_rejected. unfold onError.
    rewrite bool_decide_eq_true_2 by done. by simpl.
  - rewrite settle_status by done. by simpl.
Qed.

(** What an aborted chain writes: [.catch] skips the abort error, so the
    catalog, the featured ids and the error flag keep their values; the
    unguarded [.finally] is the only handler that writes, and it writes
    [loading]. *)
Theorem cancellation_keeps_data fetched s :
  aborted fetched →
  products (settle fetched s) = products s ∧
  featuredIds (settle fetched s) = featuredIds s ∧
  error (settle fetched s) = error s ∧
  loading (settle fetched s) = false.
Proof.
  intros [e Hname|res e Hok Hjson Hname].
  - rewrite settle_rejected. unfold onError.
    rewrite bool_decide_eq_false_2 by (intros H; by apply H). by simpl.
  - rewrite (settle_body_rejected _ _ _ Hok Hjson). unfold onError.
    rewrite bool_decide_eq_false_2 by (intros H; by apply H). by simpl.
Qed.

(** *** More on the merged catalog *)

Lemma fmap_sublist {T U : Type} (f : T → U) (k l : list T) :
  k `sublist_of` l → f <$> k `sublist_of` f <$> l.
Proof. induction 1; simpl; by constructor. Qed.

Lemma filter_all {T : Type} (P : T → Prop) `{!∀ x, Decision (P x)} (l : list T) :
  (∀ x, x ∈ l → P x) → filter P l = l.
Proof.
  induction l as [|x l IH]; intros Hall; [done|].
  rewrite filter_cons_True by (apply Hall; left).
  f_equal. apply IH. intros y Hy. apply Hall. by right.
Qed.

Lemma elem_of_merged data p :
  p ∈ merged data ↔
  (p ∈ fallbackProducts ∧ ∃ r, r ∈ data ∧ name (product r) = name p) ∨
  ((∃ r, r ∈ data ∧ product r = p) ∧
   ∀ q, q ∈ fallbackProducts → name q ≠ name p).
Proof.
  unfold merged. by rewrite elem_of_app, elem_of_filteredStatic, elem_of_newProducts.
Qed.

Lemma merged_name_remote data p :
  p ∈ merged data → ∃ r, r ∈ data ∧ name (product r) = name p.
Proof.
  intros [[_ Hr]|[(r & Hr & <-) _]]%elem_of_merged; [done|]. by exists r.
Qed.

Lemma getProductById_app l1 l2 i :
  getProductById (l1 ++ l2) i =
  match getProductById l1 i with
  | Some p => Some p
  | None => getProductById l2 i
  end.
Proof.
  unfold getProductById. induction l1 as [|q l1 IH]; [done|]. simpl.
  by destruct (bool_decide (id q = i)).
Qed.

(** X1. After a delivered payload the names found in the catalog are exactly
    the names found in the payload. *)
Theorem merged_names_are_remote_names res data s n :
  delivers res data →
  (∃ p, p ∈ products (settle (Fulfilled res) s) ∧ name p = n) ↔
  (∃ r, r ∈ data ∧ name (product r) = n).
Proof.
  intros Hd. rewrite (products_settle_delivers _ _ _ Hd). split.
  - intros (p & Hp & <-). by apply merged_name_remote.
  - intros (r & Hr & <-). by apply merged_covers_remote.
Qed.

(** X2. A delivered payload never leaves the catalog empty. *)
Theorem merged_catalog_not_empty res data s :
  delivers res data → products (settle (Fulfilled res) s) ≠ [].
Proof.
  intros Hd. rewrite (products_settle_delivers _ _ _ Hd).
  destruct Hd as (_ & _ & Hne). destruct data as [|r data]; [done|].
  destruct (merged_covers_remote (r :: data) r) as (p & Hp & _); [left|].
  intros Hnil. rewrite Hnil in Hp. by apply not_elem_of_nil in Hp.
Qed.

(** X3. When names are unique in the static catalog and in the payload, they
    are unique in the catalog after the merge, which then has one record
    per remote record. *)
Theorem merged_names_unique res data s :
  delivers res data →
  NoDup (name <$> fallbackProducts) →
  NoDup ((λ r, name (product r)) <$> data) →
  NoDup (name <$> products (settle (Fulfilled res) s)) ∧
  length (products (settle (Fulfilled res) s)) = length data.
Proof.
  intros Hd Hstatic Hremote. rewrite (products_settle_delivers _ _ _ Hd).
  assert (Hnd : NoDup (name <$> merged data)).
  { unfold merged. rewrite fmap_app. apply NoDup_app. split; [|split].
    - eapply sublist_NoDup; [exact Hstatic|].
      apply fmap_sublist. unfold filteredStatic. apply sublist_filter.
    - intros n (p & -> & Hp)%list_elem_of_fmap (p' & Hn & Hp')%list_elem_of_fmap.
      apply elem_of_filteredStatic in Hp as [Hp _].
      apply elem_of_newProducts in Hp' as [_ Hno]. by apply (Hno p).
    - unfold newProducts. rewrite <- list_fmap_compose.
      eapply sublist_NoDup; [exact Hremote|].
      apply (fmap_sublist (λ r, name (product r))), sublist_filter. }
  split; [done|].
  rewrite <- (length_fmap name (merged data)).
  rewrite <- (length_fmap (λ r, name (product r)) data).
  apply Permutation_length, NoDup_Permutation; [done|done|].
  intros n. rewrite !list_elem_of_fmap. split.
  - intros (p & -> & Hp). destruct (merged_name_remote _ _ Hp) as (r & Hr & Hn).
    by exists r.
  - intros (r & -> & Hr). destruct (merged_covers_remote _ _ Hr) as (p & Hp & Hn).
    by exists p.
Qed.

(** X4. A payload that lists every static name and no other name leaves the
    catalog equal to the static catalog. *)
Theorem full_listing_keeps_static res data s :
  delivers res data →
  (∀ q, q ∈ fallbackProducts → ∃ r, r ∈ data ∧ name (product r) = name q) →
  (∀ r, r ∈ data → ∃ q, q ∈ fallbackProducts ∧ name q = name (product r)) →
  products (settle (Fulfilled res) s) = fallbackProducts.
Proof.
  intros Hd Hall Hnone. rewrite (products_settle_delivers _ _ _ Hd).
  unfold merged, filteredStatic, newProducts.
  rewrite filter_all, filter_none; [by rewrite app_nil_r| |].
  - intros r Hr Hno. apply Hno, elem_of_staticNames. by apply Hnone.
  - intros q Hq. apply elem_of_nonSoldNames. by apply Hall.
Qed.

(** X5. A payload that shares no name with the static catalog replaces the
    catalog by the remote records, in payload order. *)
Theorem disjoint_payload_replaces_catalog res data s :
  delivers res data →
  (∀ r q, r ∈ data → q ∈ fallbackProducts → name q ≠ name (product r)) →
  products (settle (Fulfilled res) s) = product <$> data.
Proof.
  intros Hd Hdis. rewrite (products_settle_delivers _ _ _ Hd).
  unfold merged, filteredStatic, newProducts.
  rewrite filter_none, filter_all; [done| |].
  - intros r Hr (q & Hq & Hn)%elem_of_staticNames. by apply (Hdis r q).
  - intros q Hq (r & Hr & Hn)%elem_of_nonSoldNames. by apply (Hdis r q).
Qed.

(** X6. Lookup after a merge prefers the static side: when a retained static
    record carries the id, the record returned is a static record, also
    when a remote-only record carries the same id. *)
Theorem lookup_prefers_static res data s q :
  delivers res data →
  q ∈ fallbackProducts →
  (∃ r, r ∈ data ∧ name (product r) = name q) →
  ∃ p, getProductById (products (settle (Fulfilled res) s)) (id q) = Some p ∧
       p ∈ fallbackProducts ∧ id p = id q.
Proof.
  intros Hd Hq Hr. rewrite (products_settle_delivers _ _ _ Hd).
  unfold merged. rewrite getProductById_app.
  destruct (getProductById (filteredStatic data) (id q)) as [p|] eqn:Hget.
  - exists p. apply getProductById_Some in Hget as [Hp Hid].
    by apply elem_of_filteredStatic in Hp as [Hp _].
  - exfalso. rewrite getProductById_None in Hget. apply (Hget q); [|done].
    by apply elem_of_filteredStatic.
Qed.

Lemma lifecycle_snoc events fetched :
  lifecycle (events ++ [fetched]) = settle fetched (lifecycle events).
Proof. unfold lifecycle. by rewrite foldl_snoc. Qed.

(** X7. The merge starts from the static catalog, not from the current one:
    whatever earlier activations did, a delivered payload gives the
    catalog it gives from the initial state. *)
Theorem merge_ignores_history res data events :
  delivers res data →
  products (lifecycle (events ++ [Fulfilled res])) =
  products (lifecycle [Fulfilled res]).
Proof.
  intros Hd. rewrite lifecycle_snoc.
  change (lifecycle [Fulfilled res]) with (settle (Fulfilled res) initial).
  by rewrite !(products_settle_delivers _ _ _ Hd).
Qed.

(** *** The state across activations *)

Lemma settle_products_cases fetched s :
  products (settle fetched s) = products s ∨
  ∃ data, products (settle fetched s) = merged data.
Proof.
  unfold settle, onFinally. simpl.
  destruct (then_ fetched onResponse) as [body|e].
  - destruct body as [| | | | |data]; simpl; auto.
    case_bool_decide; [by left|]. right. exists data. by case_bool_decide.
  - left. apply onError_keeps.
Qed.

Lemma settle_error_cases fetched s :
  error (settle fetched s) = error s ∨
  error (settle fetched s) = Some "offline".
Proof.
  unfold settle, onFinally. simpl.
  destruct (then_ fetched onResponse) as [body|e].
  - left. destruct body as [| | | | |data]; simpl; auto.
    case_bool_decide; [done|]. by case_bool_decide.
  - unfold onError. case_bool_decide; auto.
Qed.

(** X8. Through any sequence of activations, a catalog record bearing a
    static name is a record of the static catalog: static fields are never
    overwritten. *)
Theorem static_names_keep_static_records events p :
  p ∈ products (lifecycle events) →
  (∃ q, q ∈ fallbackProducts ∧ name q = name p) →
  p ∈ fallbackProducts.
Proof.
  intros Hp (q & Hq & Hn).
  induction events as [|fetched events IH] using rev_ind; [done|].
  rewrite lifecycle_snoc in Hp.
  destruct (settle_products_cases fetched (lifecycle events)) as [Heq|[data Heq]];
    rewrite Heq in Hp; [by apply IH|].
  apply elem_of_merged in Hp as [[Hp _]|[_ Hno]]; [done|].
  by destruct (Hno q Hq).
Qed.

(** X9. [error] only ever holds [null] or the token ["offline"]. *)
Theorem error_null_or_offline events :
  error (lifecycle events) = None ∨ error (lifecycle events) = Some "offline".
Proof.
  induction events as [|fetched events IH] using rev_ind; [by left|].
  rewrite lifecycle_snoc.
  destruct (settle_error_cases fetched (lifecycle events)) as [Heq|Heq];
    rewrite Heq; auto.
Qed.

(** X10. Nothing resets [error]: once ["offline"], it stays so through every
    later activation, successful ones included. *)
Theorem error_never_cleared events more :
  error (lifecycle events) = Some "offline" →
  error (lifecycle (events ++ more)) = Some "offline".
Proof.
  intros Hoff. induction more as [|fetched more IH] using rev_ind.
  - by rewrite app_nil_r.
  - rewrite app_assoc, lifecycle_snoc.
    destruct (settle_error_cases fetched (lifecycle (events ++ more))) as [Heq|Heq];
      rewrite Heq; auto.
Qed.

(** X11. [loading] is true exactly as long as no chain has settled. *)
Theorem loading_until_first_settlement events :
  loading (lifecycle events) = true ↔ events = [].
Proof.
  destruct events as [|fetched events _] using rev_ind; [done|].
  rewrite lifecycle_snoc. split; [done|].
  intros Hnil. by apply app_nil in Hnil as [_ ?].
Qed.

(** X12. A 2xx response whose body is an empty array or not an array changes
    nothing but [loading]: the catalog and featured ids stay and no error
    is flagged. *)
Theorem silent_body_flags_nothing res v s :
  ok res = true → json res = Fulfilled v →
  isArray v = false ∨ v = JArray [] →
  settle (Fulfilled res) s = setLoading false s.
Proof.
  intros Hok Hjson Hv. unfold settle, onFinally. simpl. unfold onResponse.
  rewrite Hok, Hjson. simpl.
  destruct Hv as [Hv| ->]; [by destruct v|done].
Qed.

(** X13. A successful merge, that is a 2xx response whose body is a
    non-empty array of product records, leaves [error] as it was: it
    neither flags an error nor clears an earlier one. *)
Theorem merge_keeps_error res data s :
  delivers res data →
  error (settle (Fulfilled res) s) = error s.
Proof.
  intros Hd. rewrite (settle_delivers _ _ _ Hd). by case_bool_decide.
Qed.

(** X14. A 2xx response whose body cannot be read (a rejection of [res.json()]
    other than an abort) is reported as ["offline"] and leaves catalog and
    featured ids alone. *)
Theorem unreadable_body_goes_offline res e s :
  ok res = true → json res = Rejected e → err_name e ≠ "AbortError" →
  products (settle (Fulfilled res) s) = products s ∧
  featuredIds (settle (Fulfilled res) s) = featuredIds s ∧
  error (settle (Fulfilled res) s) = Some "offline" ∧
  loading (settle (Fulfilled res) s) = false.
Proof.
  intros Hok Hjson Hname. rewrite (settle_body_rejected _ _ _ Hok Hjson).
  unfold onError. by rewrite bool_decide_eq_true_2.
Qed.

(** X15. A transport failure does not roll back: from any state, a merged one
    included, catalog and featured ids stay as they are and only [error]
    and [loading] are written. *)
Theorem failure_keeps_current_state fetched s :
  transport_failure fetched →
  settle fetched s = setLoading false (setError (Some "offline") s).
Proof.
  intros [e Hname|res Hok].
  - rewrite settle_rejected. unfold onError. by rewrite bool_decide_eq_true_2.
  - by apply settle_status.
Qed.

(** *** More on lookup and on the featured list *)

Lemma getProductById_skip l1 l2 i :
  (∀ q, q ∈ l1 → id q ≠ i) →
  getProductById (l1 ++ l2) i = getProductById l2 i.
Proof.
  intros Hno. rewrite getProductById_app.
  by rewrite (proj2 (getProductById_None l1 i) Hno).
Qed.

Lemma getProductById_head p l : getProductById (p :: l) (id p) = Some p.
Proof. unfold getProductById. simpl. by rewrite bool_decide_eq_true_2. Qed.

(** X16. Among several records with the same id, lookup returns the first. *)
Theorem getProductById_first_match l1 p l2 :
  (∀ q, q ∈ l1 → id q ≠ id p) →
  getProductById (l1 ++ p :: l2) (id p) = Some p.
Proof.
  intros Hno. rewrite getProductById_skip by done. apply getProductById_head.
Qed.

(** X17. With unique ids, looking a catalog record up by its own id returns
    that record. *)
Theorem getProductById_unique_ids catalog p :
  NoDup (id <$> catalog) → p ∈ catalog →
  getProductById catalog (id p) = Some p.
Proof.
  intros Hnd Hp. apply list_elem_of_split in Hp as (l1 & l2 & ->).
  rewrite fmap_app in Hnd. apply NoDup_app in Hnd as (_ & Hdis & _).
  rewrite getProductById_skip; [apply getProductById_head|].
  intros q Hq Heq. apply (Hdis (id q)).
  - by apply list_elem_of_fmap_2.
  - rewrite Heq. simpl. left.
Qed.

(** X18. Lookup in the featured list is lookup in the catalog for a featured
    id, and a miss for any other id. *)
Theorem lookup_in_featured catalog ids i :
  getProductById (featuredProducts catalog ids) i =
  if decide (i ∈ ids) then getProductById catalog i else None.
Proof.
  unfold featuredProducts. induction catalog as [|q l IH].
  - by destruct (decide (i ∈ ids)).
  - rewrite filter_cons. unfold getProductById in *.
    destruct (decide (id q ∈ ids)) as [Hq|Hq]; simpl.
    + case_bool_decide as Hid; [|done]. subst i.
      by destruct (decide (id q ∈ ids)).
    + rewrite IH. case_bool_decide as Hid; [|done]. subst i.
      by destruct (decide (id q ∈ ids)).
Qed.

Lemma fmap_NoDup_inj {T U : Type} (f : T → U) (l : list T) x y :
  NoDup (f <$> l) → x ∈ l → y ∈ l → f x = f y → x = y.
Proof.
  induction l as [|z l IH]; intros Hnd Hx Hy Heq; [by apply not_elem_of_nil in Hx|].
  rewrite fmap_cons in Hnd. apply NoDup_cons in Hnd as [Hz Hnd].
  apply elem_of_cons in Hx as [->|Hx]; apply elem_of_cons in Hy as [->|Hy].
  - done.
  - exfalso. apply Hz. rewrite Heq. by apply list_elem_of_fmap_2.
  - exfalso. apply Hz. rewrite <- Heq. by apply list_elem_of_fmap_2.
  - by apply IH.
Qed.

Lemma useProducts_featured s :
  res_featuredProducts (useProducts s) =
  featuredProducts (products s) (featuredIds s).
Proof. reflexivity. Qed.

Lemma featuredIds_settle_flagged res data s :
  delivers res data → (∃ r, r ∈ data ∧ featured r = Some true) →
  featuredIds (settle (Fulfilled res) s) = featuredFromAirtable data.
Proof.
  intros Hd Hflag. rewrite (settle_delivers _ _ _ Hd).
  by rewrite bool_decide_eq_true_2 by by apply featuredFromAirtable_pos.
Qed.

(** X19. After a payload with a flagged record, every catalog record bearing a
    flagged name is in the featured list, so that list is not empty. *)
Theorem flagged_records_are_featured res data s :
  delivers res data →
  (∃ r, r ∈ data ∧ featured r = Some true) →
  (∀ p, p ∈ products (settle (Fulfilled res) s) →
        (∃ r, r ∈ data ∧ featured r = Some true ∧ name (product r) = name p) →
        p ∈ res_featuredProducts (useProducts (settle (Fulfilled res) s))) ∧
  res_featuredProducts (useProducts (settle (Fulfilled res) s)) ≠ [].
Proof.
  intros Hd Hflag.
  assert (Hin : ∀ p, p ∈ products (settle (Fulfilled res) s) →
            (∃ r, r ∈ data ∧ featured r = Some true ∧ name (product r) = name p) →
            p ∈ res_featuredProducts (useProducts (settle (Fulfilled res) s))).
  { intros p Hp Hr. rewrite useProducts_featured.
    apply elem_of_featuredProducts. split; [done|].
    rewrite (featuredIds_settle_flagged _ _ _ Hd Hflag).
    apply elem_of_featuredFromAirtable. exists p.
    by rewrite <- (products_settle_delivers _ _ s Hd). }
  split; [exact Hin|].
  destruct Hflag as (r & Hr & Hf).
  destruct (merged_covers_remote data r Hr) as (p & Hp & Hn).
  rewrite <- (products_settle_delivers _ _ s Hd) in Hp.
  intros Hnil. specialize (Hin p Hp). rewrite Hnil in Hin.
  eapply not_elem_of_nil, Hin. eauto.
Qed.

(** X20. When the ids of the merged catalog are unique, the featured list
    after a payload with a flagged record holds exactly the catalog
    records bearing a flagged name. *)
Theorem featured_exactly_flagged res data s p :
  delivers res data →
  (∃ r, r ∈ data ∧ featured r = Some true) →
  NoDup (id <$> products (settle (Fulfilled res) s)) →
  p ∈ res_featuredProducts (useProducts (settle (Fulfilled res) s)) ↔
  p ∈ products (settle (Fulfilled res) s) ∧
  ∃ r, r ∈ data ∧ featured r = Some true ∧ name (product r) = name p.
Proof.
  intros Hd Hflag Hnd. rewrite useProducts_featured, elem_of_featuredProducts.
  rewrite (featuredIds_settle_flagged _ _ _ Hd Hflag).
  rewrite elem_of_featuredFromAirtable.
  rewrite (products_settle_delivers _ _ _ Hd) in *.
  split.
  - intros (Hp & p' & Hp' & Hid & Hr). split; [done|].
    by rewrite <- (fmap_NoDup_inj id _ p' p Hnd Hp' Hp Hid).
  - intros (Hp & Hr). split; [done|]. by exists p.
Qed.

End WithStaticCatalog.

(** ** The theorems at sample inputs *)

Import Samples.

Lemma delivers_respond (data : list RemoteProduct) :
  data ≠ [] → delivers (respond data) data.
Proof. intros H. split; [reflexivity|]. split; [reflexivity|exact H]. Qed.

(** The scenario of the specification: static [A; B; C], remote [B; D]
    with [D] flagged. *)
Example scenario_merge :
  products (settle staticABC (Fulfilled (respond remoteBD)) (initial staticABC))
    = [B; product remoteD] ∧
  featuredIds (settle staticABC (Fulfilled (respond remoteBD)) (initial staticABC))
    = {[ "rec2" ]}.
Proof. split; vm_compute; reflexivity. Qed.

(** A default featured id whose product a merge dropped: the id stays in
    the set, no featured product carries it. *)
Example dropped_default_disappears :
  "u8" ∈ featuredIds (lifecycle staticDefaults [Fulfilled (respond [remoteBowl])]) ∧
  res_products (useProducts (lifecycle staticDefaults [Fulfilled (respond [remoteBowl])]))
    = [Bowl] ∧
  res_featuredProducts
    (useProducts (lifecycle staticDefaults [Fulfilled (respond [remoteBowl])]))
    = [Bowl].
Proof.
  split; [|split]; [|reflexivity|vm_compute; reflexivity].
  apply (bool_decide_unpack _). vm_compute. exact I.
Qed.

Lemma fallback_invariant_witness :
  unusable (Fulfilled (respond [])) ∧
  products (settle staticABC (Fulfilled (respond [])) (initial staticABC))
    = staticABC ∧
  featuredIds (settle staticABC (Fulfilled (respond [])) (initial staticABC))
    = DEFAULT_FEATURED_IDS.
Proof.
  assert (H : unusable (Fulfilled (respond []))).
  { apply unusable_empty. reflexivity. }
  split; [exact H|]. exact (fallback_invariant staticABC _ H).
Defined.

Lemma retention_rule_witness :
  delivers (respond remoteBD) remoteBD ∧
  ∃ kept added : list Product,
    products (settle staticABC (Fulfilled (respond remoteBD)) (initial staticABC))
      = kept ++ added ∧
    (∀ p, p ∈ added → ∀ q, q ∈ staticABC → name q ≠ name p) ∧
    kept `sublist_of` staticABC ∧
    (∀ p, p ∈ kept ↔
          p ∈ staticABC ∧ ∃ r, r ∈ remoteBD ∧ name (product r) = name p) ∧
    (∀ k, k `sublist_of` staticABC →
          Forall (λ p, ∃ r, r ∈ remoteBD ∧ name (product r) = name p) k →
          k `sublist_of` kept).
Proof.
  assert (H : delivers (respond remoteBD) remoteBD).
  { split; [reflexivity|]. split; [reflexivity|discriminate]. }
  split; [exact H|].
  exact (retention_rule staticABC _ _ (initial staticABC) H).
Defined.

Lemma new_products_and_order_witness :
  delivers (respond remoteBD) remoteBD ∧
  (∀ r, r ∈ remoteBD →
        (∀ q, q ∈ staticABC → name q ≠ name (product r)) →
        product r ∈
          products (settle staticABC (Fulfilled (respond remoteBD)) (initial staticABC))) ∧
  products (settle staticABC (Fulfilled (respond remoteBD)) (initial staticABC)) =
    spec_retainedStatic staticABC remoteBD ++ spec_newFromRemote staticABC remoteBD ∧
  spec_retainedStatic staticABC remoteBD `sublist_of` staticABC ∧
  spec_newFromRemote staticABC remoteBD `sublist_of` product <$> remoteBD.
Proof.
  assert (H : delivers (respond remoteBD) remoteBD).
  { split; [reflexivity|]. split; [reflexivity|discriminate]. }
  split; [exact H|].
  exact (new_products_and_order staticABC _ _ (initial staticABC) H).
Defined.

Lemma static_wins_on_conflict_witness :
  delivers (respond remoteBD) remoteBD ∧
  (∃ q, q ∈ staticABC ∧ name q = "B") ∧
  (∃ r, r ∈ remoteBD ∧ name (product r) = "B") ∧
  filter (λ p, name p = "B")
    (products (settle staticABC (Fulfilled (respond remoteBD)) (initial staticABC))) =
    filter (λ p, name p = "B") staticABC ∧
  (∀ p, p ∈ products (settle staticABC (Fulfilled (respond remoteBD)) (initial staticABC)) →
        name p = "B" → p ∈ staticABC).
Proof.
  assert (H : delivers (respond remoteBD) remoteBD).
  { split; [reflexivity|]. split; [reflexivity|discriminate]. }
  assert (Hs : ∃ q, q ∈ staticABC ∧ name q = "B").
  { exists B. split; [|reflexivity]. right. left. }
  assert (Hr : ∃ r, r ∈ remoteBD ∧ name (product r) = "B").
  { exists remoteB. split; [|reflexivity]. left. }
  split; [exact H|]. split; [exact Hs|]. split; [exact Hr|].
  exact (static_wins_on_conflict staticABC _ _ (initial staticABC) "B" H Hs Hr).
Defined.

Lemma featured_precedence_witness :
  delivers (respond remoteBD) remoteBD ∧
  ((∃ r, r ∈ remoteBD ∧ featured r = Some true) →
   ∀ i, i ∈ featuredIds (settle staticABC (Fulfilled (respond remoteBD)) (initial staticABC)) ↔
        ∃ p, p ∈ products (settle staticABC (Fulfilled (respond remoteBD)) (initial staticABC)) ∧
             id p = i ∧
             ∃ r, r ∈ remoteBD ∧ featured r = Some true ∧
                  name (product r) = name p) ∧
  ((∀ r, r ∈ remoteBD → featured r ≠ Some true) →
   featuredIds (settle staticABC (Fulfilled (respond remoteBD)) (initial staticABC))
     = featuredIds (initial staticABC) ∧
   featuredIds (settle staticABC (Fulfilled (respond remoteBD)) (initial staticABC))
     = DEFAULT_FEATURED_IDS).
Proof.
  assert (H : delivers (respond remoteBD) remoteBD).
  { split; [reflexivity|]. split; [reflexivity|discriminate]. }
  split; [exact H|].
  exact (featured_precedence staticABC _ _ (initial staticABC) H).
Defined.

Lemma repeated_merge_no_drift_witness :
  delivers (respond remoteBD) remoteBD ∧
  delivers (mkResponse 204 (Fulfilled (JArray remoteBD))) remoteBD ∧
  same_names_and_flags remoteBD remoteBD ∧
  newProducts staticABC remoteBD = newProducts staticABC remoteBD ∧
  settle staticABC (Fulfilled (mkResponse 204 (Fulfilled (JArray remoteBD))))
    (initial staticABC)
    = settle staticABC (Fulfilled (respond remoteBD)) (initial staticABC) ∧
  settle staticABC (Fulfilled (mkResponse 204 (Fulfilled (JArray remoteBD))))
    (settle staticABC (Fulfilled (respond remoteBD)) (initial staticABC))
    = settle staticABC (Fulfilled (respond remoteBD)) (initial staticABC).
Proof.
  assert (H1 : delivers (respond remoteBD) remoteBD).
  { split; [reflexivity|]. split; [reflexivity|discriminate]. }
  assert (H2 : delivers (mkResponse 204 (Fulfilled (JArray remoteBD))) remoteBD).
  { split; [reflexivity|]. split; [reflexivity|discriminate]. }
  split; [exact H1|]. split; [exact H2|].
  split; [reflexivity|]. split; [reflexivity|].
  exact (repeated_merge_no_drift staticABC _ _ _ _ (initial staticABC)
           H1 H2 eq_refl eq_refl).
Defined.

(** C6 as stated fails: two payloads with the same names and flags whose
    remote-only record [D] differs in id and price give different catalogs
    and different featured ids. *)
Lemma same_names_and_flags_drift :
  same_names_and_flags remoteBD remoteBD' ∧
  delivers (respond remoteBD) remoteBD ∧
  delivers (respond remoteBD') remoteBD' ∧
  products (settle staticABC (Fulfilled (respond remoteBD'))
              (settle staticABC (Fulfilled (respond remoteBD)) (initial staticABC)))
    ≠ products (settle staticABC (Fulfilled (respond remoteBD)) (initial staticABC)) ∧
  featuredIds (settle staticABC (Fulfilled (respond remoteBD'))
                 (settle staticABC (Fulfilled (respond remoteBD)) (initial staticABC)))
    ≠ featuredIds (settle staticABC (Fulfilled (respond remoteBD)) (initial staticABC)).
Proof.
  split; [reflexivity|].
  split; [apply delivers_respond; discriminate|].
  split; [apply delivers_respond; discriminate|].
  split.
  - vm_compute. discriminate.
  - intros H. apply (f_equal elements) in H. vm_compute in H. discriminate.
Qed.

Lemma cancellation_keeps_data_witness :
  aborted (Rejected AbortError) ∧
  products (settle staticABC (Rejected AbortError) (initial staticABC))
    = products (initial staticABC) ∧
  featuredIds (settle staticABC (Rejected AbortError) (initial staticABC))
    = featuredIds (initial staticABC) ∧
  error (settle staticABC (Rejected AbortError) (initial staticABC))
    = error (initial staticABC) ∧
  loading (settle staticABC (Rejected AbortError) (initial staticABC)) = false.
Proof.
  assert (H : aborted (Rejected AbortError)).
  { apply aborted_fetch. reflexivity. }
  split; [exact H|].
  exact (cancellation_keeps_data staticABC _ (initial staticABC) H).
Defined.

(** C8. Cancellation safety asks that nothing be written after teardown.
    The chain of an aborted request does write: [.catch] is guarded
    against the abort error, [.finally] is not, so [loading], true at
    teardown, is false once the aborted chain has settled, and the state
    is no longer the one of teardown time. *)
Lemma abort_clears_loading :
  aborted (Rejected AbortError) ∧
  loading (initial staticABC) = true ∧
  loading (settle staticABC (Rejected AbortError) (initial staticABC)) = false ∧
  settle staticABC (Rejected AbortError) (initial staticABC) ≠ initial staticABC.
Proof.
  split; [apply aborted_fetch; reflexivity|].
  split; [reflexivity|]. split; [reflexivity|].
  intros H. apply (f_equal loading) in H. discriminate.
Qed.

Lemma transport_failure_signalling_witness :
  transport_failure (Fulfilled (mkResponse 503 (Fulfilled JNull))) ∧
  products (settle staticABC (Fulfilled (mkResponse 503 (Fulfilled JNull))) (initial staticABC))
    = staticABC ∧
  featuredIds (settle staticABC (Fulfilled (mkResponse 503 (Fulfilled JNull))) (initial staticABC))
    = DEFAULT_FEATURED_IDS ∧
  error (settle staticABC (Fulfilled (mkResponse 503 (Fulfilled JNull))) (initial staticABC))
    = Some "offline" ∧
  error (settle staticABC (Fulfilled (mkResponse 503 (Fulfilled JNull))) (initial staticABC))
    ≠ None ∧
  loading (initial staticABC) = true ∧
  loading (settle staticABC (Fulfilled (mkResponse 503 (Fulfilled JNull))) (initial staticABC))
    = false.
Proof.
  assert (H : transport_failure (Fulfilled (mkResponse 503 (Fulfilled JNull)))).
  { apply failure_status. reflexivity. }
  split; [exact H|].
  exact (transport_failure_signalling staticABC _ H).
Defined.

(** ** The further properties at sample inputs *)

Lemma delivers_remoteBD : delivers (respond remoteBD) remoteBD.
Proof. split; [reflexivity|]. split; [reflexivity|discriminate]. Defined.

Lemma flagged_remoteBD : ∃ r, r ∈ remoteBD ∧ featured r = Some true.
Proof. exists remoteD. split; [right; left|reflexivity]. Defined.

Lemma merged_names_are_remote_names_witness :
  delivers (respond remoteBD) remoteBD ∧
  ((∃ p, p ∈ products (settle staticABC (Fulfilled (respond remoteBD)) (initial staticABC)) ∧
         name p = "D") ↔
   (∃ r, r ∈ remoteBD ∧ name (product r) = "D")).
Proof.
  split; [exact delivers_remoteBD|].
  exact (merged_names_are_remote_names staticABC _ _ (initial staticABC) "D"
           delivers_remoteBD).
Defined.

Lemma merged_catalog_not_empty_witness :
  delivers (respond remoteBD) remoteBD ∧
  products (settle staticABC (Fulfilled (respond remoteBD)) (initial staticABC)) ≠ [].
Proof.
  split; [exact delivers_remoteBD|].
  exact (merged_catalog_not_empty staticABC _ _ (initial staticABC) delivers_remoteBD).
Defined.

Lemma merged_names_unique_witness :
  delivers (respond remoteBD) remoteBD ∧
  NoDup (name <$> staticABC) ∧
  NoDup ((λ r, name (product r)) <$> remoteBD) ∧
  NoDup (name <$> products (settle staticABC (Fulfilled (respond remoteBD)) (initial staticABC))) ∧
  length (products (settle staticABC (Fulfilled (respond remoteBD)) (initial staticABC)))
    = length remoteBD.
Proof.
  assert (Hs : NoDup (name <$> staticABC)).
  { apply (bool_decide_unpack _). vm_compute. exact I. }
  assert (Hr : NoDup ((λ r, name (product r)) <$> remoteBD)).
  { apply (bool_decide_unpack _). vm_compute. exact I. }
  split; [exact delivers_remoteBD|]. split; [exact Hs|]. split; [exact Hr|].
  exact (merged_names_unique staticABC _ _ (initial staticABC)
           delivers_remoteBD Hs Hr).
Defined.

Lemma full_listing_keeps_static_witness :
  delivers (respond [remoteBowl; remoteLamp]) [remoteBowl; remoteLamp] ∧
  (∀ q, q ∈ staticDefaults →
        ∃ r, r ∈ [remoteBowl; remoteLamp] ∧ name (product r) = name q) ∧
  (∀ r, r ∈ [remoteBowl; remoteLamp] →
        ∃ q, q ∈ staticDefaults ∧ name q = name (product r)) ∧
  products (settle staticDefaults (Fulfilled (respond [remoteBowl; remoteLamp]))
              (initial staticDefaults))
    = staticDefaults.
Proof.
  assert (Hd : delivers (respond [remoteBowl; remoteLamp]) [remoteBowl; remoteLamp]).
  { split; [reflexivity|]. split; [reflexivity|discriminate]. }
  assert (Hall : ∀ q, q ∈ staticDefaults →
            ∃ r, r ∈ [remoteBowl; remoteLamp] ∧ name (product r) = name q).
  { intros q Hq. apply elem_of_cons in Hq as [->|Hq].
    - exists remoteLamp. split; [right; left|reflexivity].
    - apply list_elem_of_singleton in Hq as ->.
      exists remoteBowl. split; [left|reflexivity]. }
  assert (Hnone : ∀ r, r ∈ [remoteBowl; remoteLamp] →
            ∃ q, q ∈ staticDefaults ∧ name q = name (product r)).
  { intros r Hr. apply elem_of_cons in Hr as [->|Hr].
    - exists Bowl. split; [right; left|reflexivity].
    - apply list_elem_of_singleton in Hr as ->.
      exists Lamp. split; [left|reflexivity]. }
  split; [exact Hd|]. split; [exact Hall|]. split; [exact Hnone|].
  exact (full_listing_keeps_static staticDefaults _ _ (initial staticDefaults)
           Hd Hall Hnone).
Defined.

Lemma disjoint_payload_replaces_catalog_witness :
  delivers (respond [remoteD]) [remoteD] ∧
  (∀ r q, r ∈ [remoteD] → q ∈ staticABC → name q ≠ name (product r)) ∧
  products (settle staticABC (Fulfilled (respond [remoteD])) (initial staticABC))
    = product <$> [remoteD].
Proof.
  assert (Hd : delivers (respond [remoteD]) [remoteD]).
  { split; [reflexivity|]. split; [reflexivity|discriminate]. }
  assert (Hdis : ∀ r q, r ∈ [remoteD] → q ∈ staticABC →
            name q ≠ name (product r)).
  { intros r q Hr Hq. apply list_elem_of_singleton in Hr as ->.
    apply elem_of_cons in Hq as [->|Hq]; [discriminate|].
    apply elem_of_cons in Hq as [->|Hq]; [discriminate|].
    apply list_elem_of_singleton in Hq as ->. discriminate. }
  split; [exact Hd|]. split; [exact Hdis|].
  exact (disjoint_payload_replaces_catalog staticABC _ _ (initial staticABC) Hd Hdis).
Defined.

Lemma lookup_prefers_static_witness :
  delivers (respond remoteBD) remoteBD ∧
  B ∈ staticABC ∧
  (∃ r, r ∈ remoteBD ∧ name (product r) = name B) ∧
  ∃ p, getProductById
         (products (settle staticABC (Fulfilled (respond remoteBD)) (initial staticABC)))
         (id B) = Some p ∧
       p ∈ staticABC ∧ id p = id B.
Proof.
  assert (HB : B ∈ staticABC) by (right; left).
  assert (Hr : ∃ r, r ∈ remoteBD ∧ name (product r) = name B).
  { exists remoteB. split; [left|reflexivity]. }
  split; [exact delivers_remoteBD|]. split; [exact HB|]. split; [exact Hr|].
  exact (lookup_prefers_static staticABC _ _ (initial staticABC) B
           delivers_remoteBD HB Hr).
Defined.

Lemma merge_ignores_history_witness :
  delivers (respond remoteBD) remoteBD ∧
  products (lifecycle staticABC
              ([Fulfilled (respond [remoteD]); Rejected failedToFetch]
               ++ [Fulfilled (respond remoteBD)]))
    = products (lifecycle staticABC [Fulfilled (respond remoteBD)]).
Proof.
  split; [exact delivers_remoteBD|].
  exact (merge_ignores_history staticABC _ _
           [Fulfilled (respond [remoteD]); Rejected failedToFetch]
           delivers_remoteBD).
Defined.

Lemma static_names_keep_static_records_witness :
  B ∈ products (lifecycle staticABC [Fulfilled (respond remoteBD)]) ∧
  (∃ q, q ∈ staticABC ∧ name q = name B) ∧
  B ∈ staticABC.
Proof.
  assert (Hp : B ∈ products (lifecycle staticABC [Fulfilled (respond remoteBD)])).
  { replace (products (lifecycle staticABC [Fulfilled (respond remoteBD)]))
      with [B; product remoteD] by (vm_compute; reflexivity).
    left. }
  assert (Hq : ∃ q, q ∈ staticABC ∧ name q = name B).
  { exists B. split; [right; left|reflexivity]. }
  split; [exact Hp|]. split; [exact Hq|].
  exact (static_names_keep_static_records staticABC _ B Hp Hq).
Defined.

Lemma error_never_cleared_witness :
  error (lifecycle staticABC [Rejected failedToFetch]) = Some "offline" ∧
  error (lifecycle staticABC ([Rejected failedToFetch] ++ [Fulfilled (respond remoteBD)]))
    = Some "offline".
Proof.
  assert (H : error (lifecycle staticABC [Rejected failedToFetch]) = Some "offline")
    by reflexivity.
  split; [exact H|].
  exact (error_never_cleared staticABC _ [Fulfilled (respond remoteBD)] H).
Defined.

Lemma silent_body_flags_nothing_witness :
  ok (respond []) = true ∧
  json (respond []) = Fulfilled (JArray []) ∧
  (isArray (JArray []) = false ∨ JArray [] = JArray []) ∧
  settle staticABC (Fulfilled (respond [])) (initial staticABC)
    = setLoading false (initial staticABC).
Proof.
  assert (Hv : isArray (JArray []) = false ∨ JArray [] = JArray [])
    by (right; reflexivity).
  split; [reflexivity|]. split; [reflexivity|]. split; [exact Hv|].
  exact (silent_body_flags_nothing staticABC (respond []) _ (initial staticABC)
           eq_refl eq_refl Hv).
Defined.

Lemma merge_keeps_error_witness :
  delivers (respond remoteBD) remoteBD ∧
  error (settle staticABC (Fulfilled (respond remoteBD))
           (lifecycle staticABC [Rejected failedToFetch]))
    = error (lifecycle staticABC [Rejected failedToFetch]).
Proof.
  split; [exact delivers_remoteBD|].
  exact (merge_keeps_error staticABC _ _
           (lifecycle staticABC [Rejected failedToFetch]) delivers_remoteBD).
Defined.

Lemma unreadable_body_goes_offline_witness :
  ok (mkResponse 200 (Rejected badJson)) = true ∧
  json (mkResponse 200 (Rejected badJson)) = Rejected badJson ∧
  err_name badJson ≠ "AbortError" ∧
  products (settle staticABC (Fulfilled (mkResponse 200 (Rejected badJson))) (initial staticABC))
    = products (initial staticABC) ∧
  featuredIds (settle staticABC (Fulfilled (mkResponse 200 (Rejected badJson))) (initial staticABC))
    = featuredIds (initial staticABC) ∧
  error (settle staticABC (Fulfilled (mkResponse 200 (Rejected badJson))) (initial staticABC))
    = Some "offline" ∧
  loading (settle staticABC (Fulfilled (mkResponse 200 (Rejected badJson))) (initial staticABC))
    = false.
Proof.
  assert (Hn : err_name badJson ≠ "AbortError") by discriminate.
  split; [reflexivity|]. split; [reflexivity|]. split; [exact Hn|].
  exact (unreadable_body_goes_offline staticABC
           (mkResponse 200 (Rejected badJson)) badJson (initial staticABC)
           eq_refl eq_refl Hn).
Defined.

Lemma failure_keeps_current_state_witness :
  transport_failure (Rejected failedToFetch) ∧
  settle staticABC (Rejected failedToFetch)
    (lifecycle staticABC [Fulfilled (respond remoteBD)])
  = setLoading false
      (setError (Some "offline") (lifecycle staticABC [Fulfilled (respond remoteBD)])).
Proof.
  assert (H : transport_failure (Rejected failedToFetch)).
  { apply failure_network. discriminate. }
  split; [exact H|].
  exact (failure_keeps_current_state staticABC _
           (lifecycle staticABC [Fulfilled (respond remoteBD)]) H).
Defined.

Lemma getProductById_first_match_witness :
  (∀ q, q ∈ [A] → id q ≠ id B) ∧
  getProductById ([A] ++ B :: [item "b" "Shadowed" 1]) (id B) = Some B.
Proof.
  assert (H : ∀ q, q ∈ [A] → id q ≠ id B).
  { intros q Hq. apply list_elem_of_singleton in Hq as ->. discriminate. }
  split; [exact H|].
  exact (getProductById_first_match [A] B [item "b" "Shadowed" 1] H).
Defined.

Lemma getProductById_unique_ids_witness :
  NoDup (id <$> staticABC) ∧ C ∈ staticABC ∧
  getProductById staticABC (id C) = Some C.
Proof.
  assert (Hnd : NoDup (id <$> staticABC)).
  { apply (bool_decide_unpack _). vm_compute. exact I. }
  assert (HC : C ∈ staticABC) by (right; right; left).
  split; [exact Hnd|]. split; [exact HC|].
  exact (getProductById_unique_ids staticABC C Hnd HC).
Defined.

Lemma flagged_records_are_featured_witness :
  delivers (respond remoteBD) remoteBD ∧
  (∃ r, r ∈ remoteBD ∧ featured r = Some true) ∧
  (∀ p, p ∈ products (settle staticABC (Fulfilled (respond remoteBD)) (initial staticABC)) →
        (∃ r, r ∈ remoteBD ∧ featured r = Some true ∧ name (product r) = name p) →
        p ∈ res_featuredProducts
              (useProducts (settle staticABC (Fulfilled (respond remoteBD)) (initial staticABC)))) ∧
  res_featuredProducts
    (useProducts (settle staticABC (Fulfilled (respond remoteBD)) (initial staticABC))) ≠ [].
Proof.
  split; [exact delivers_remoteBD|]. split; [exact flagged_remoteBD|].
  exact (flagged_records_are_featured staticABC _ _ (initial staticABC)
           delivers_remoteBD flagged_remoteBD).
Defined.

Lemma featured_exactly_flagged_witness :
  delivers (respond remoteBD) remoteBD ∧
  (∃ r, r ∈ remoteBD ∧ featured r = Some true) ∧
  NoDup (id <$> products (settle staticABC (Fulfilled (respond remoteBD)) (initial staticABC))) ∧
  (product remoteD ∈
     res_featuredProducts
       (useProducts (settle staticABC (Fulfilled (respond remoteBD)) (initial staticABC))) ↔
   product remoteD ∈
     products (settle staticABC (Fulfilled (respond remoteBD)) (initial staticABC)) ∧
   ∃ r, r ∈ remoteBD ∧ featured r = Some true ∧
        name (product r) = name (product remoteD)).
Proof.
  assert (Hnd : NoDup (id <$> products
            (settle staticABC (Fulfilled (respond remoteBD)) (initial staticABC)))).
  { apply (bool_decide_unpack _). vm_compute. exact I. }
  split; [exact delivers_remoteBD|]. split; [exact flagged_remoteBD|].
  split; [exact Hnd|].
  exact (featured_exactly_flagged staticABC _ _ (initial staticABC) (product remoteD)
           delivers_remoteBD flagged_remoteBD Hnd).
Defined.

End Reconciler.
